(** * kysely-to-dexie: the key inference types and the Dexie factory

    A shallow embedding of [src/src/example.ts]:

    - the type-level functions [FindPrimaryKey], [PrimaryKeyConfig] and the
      constraint [PKConfig extends PrimaryKeyConfig<KDatabase>] of
      [createBuilder], as functions and decidable checks over a small
      representation of the TypeScript types the repository uses;
    - the run-time code of [kyselyToDexieFactory] / [createBuilder] / [build],
      over a heap of Dexie objects, with the calls into the engine returning
      or throwing as the engine does.

    TypeScript object types and JavaScript objects are finite maps from
    property names, so they are [gmap string _]; a union of string literal
    types is a [gset string] ([never] is the empty set). *)

From Stdlib Require Import ZArith String Ascii.
From stdpp Require Import base option list gmap sets strings countable.

Local Open Scope string_scope.
Local Open Scope Z_scope.

(** ** Kysely table types *)

(** The value types the repository's schemas declare for a column. *)
Inductive ValueType : Type := TNumber | TString | TBoolean.

(** The type of one property of a Kysely table type: [Generated<v>] or a
    plain [v]. *)
Inductive ColumnType : Type :=
| Generated (v : ValueType)
| Plain (v : ValueType).

#[global] Instance ValueType_eq_dec : EqDecision ValueType.
Proof. solve_decision. Defined.
#[global] Instance ColumnType_eq_dec : EqDecision ColumnType.
Proof. solve_decision. Defined.

(** A Kysely table type, e.g. [{ id: Generated<number>; name: string }]. *)
Abbreviation TableType := (gmap string ColumnType).
(** A Kysely database type [KDatabase]: table name to table type. *)
Abbreviation DatabaseType := (gmap string TableType).

(** [T[K] extends Generated<any>]. *)
Definition extends_Generated_any (c : ColumnType) : bool :=
  match c with
  | Generated _ => true
  | Plain _ => false
  end.

(** Kysely's [SelectType]: the type a column has in a selected row. *)
Definition SelectType (c : ColumnType) : ValueType :=
  match c with
  | Generated v => v
  | Plain v => v
  end.

(** Kysely's [Selectable<T>]: every column at its select type. *)
Definition Selectable (T : TableType) : gmap string ValueType :=
  SelectType <$> T.

(** [keyof]. *)
Definition keyof {A} (T : gmap string A) : gset string := dom T.

(** [{ [K in keyof T]: T[K] extends Generated<any> ? K : never }[keyof T]]:
    the union of the names of the properties that pass the test. *)
Definition generated_keys (T : TableType) : gset string :=
  dom (filter (λ kc, extends_Generated_any kc.2 = true) T).

(** [FindPrimaryKey<T>]. *)
Definition FindPrimaryKey (T : TableType) : gset string :=
  generated_keys T ∩ keyof (Selectable T).

(** The spec's field kinds, and the kind of a column. *)
Inductive FieldKind : Type := KGenerated | KPlain.

#[global] Instance FieldKind_eq_dec : EqDecision FieldKind.
Proof. solve_decision. Defined.

Definition kind_of (c : ColumnType) : FieldKind :=
  if extends_Generated_any c then KGenerated else KPlain.

(** The table [{ a: Plain, b: Generated, c: Generated }] of the spec. *)
Definition abc_table : TableType :=
  {[ "a" := Plain TString; "b" := Generated TNumber; "c" := Generated TString ]}.

(** ** The primary key configuration and its type check *)

(** [PrimaryKeyConfig<KDatabase>]: the mapped type
    [{ [KTableName in keyof KDatabase]: FindPrimaryKey<KDatabase[KTableName]> }],
    one required property per table, typed by the union of its candidates. *)
Definition PrimaryKeyConfig (KDatabase : DatabaseType) : gmap string (gset string) :=
  FindPrimaryKey <$> KDatabase.

(** A configuration object, with the literal types [satisfies] and
    [as const] keep: table name to the chosen property name. *)
Abbreviation Config := (gmap string string).

(** What the type checker reports on one property of the configuration:
    - [NotAssignable chosen target]: type ['"chosen"'] is not assignable to
      the union [target] (to [never] when [target] is empty);
    - [PropertyMissing]: the property is required by the type and missing in
      the configuration. *)
Inductive Diagnostic : Type :=
| NotAssignable (chosen : string) (target : gset string)
| PropertyMissing.

#[global] Instance Diagnostic_eq_dec : EqDecision Diagnostic.
Proof. solve_decision. Defined.

(** Assignability of one property: a required property of the target must be
    present with a literal that is a member of the union; a property the
    target does not have is not looked at (width subtyping). *)
Definition check_property (target : option (gset string)) (chosen : option string)
  : option Diagnostic :=
  match target, chosen with
  | Some cands, Some f =>
      if decide (f ∈ cands) then None else Some (NotAssignable f cands)
  | Some _, None => Some PropertyMissing
  | None, _ => None
  end.

(** The diagnostics of [PKConfig extends PrimaryKeyConfig<KDatabase>], per
    table. *)
Definition check_PrimaryKeyConfig (KDatabase : DatabaseType) (config : Config)
  : gmap string Diagnostic :=
  merge check_property (PrimaryKeyConfig KDatabase) config.

(** The constraint holds when nothing is reported. *)
Definition extends_PrimaryKeyConfig (KDatabase : DatabaseType) (config : Config) : bool :=
  bool_decide (check_PrimaryKeyConfig KDatabase config = ∅).

(** The validator as the spec words it (section 4.2 and the taxonomy of
    section 7), for one entry of the mapping; it is compared below with the
    check the types perform. *)
Module SpecValidator.

Inductive ValidationError : Type :=
| NoCandidateKey (table : string)
| InvalidKeyChoice (table field : string)
| UnknownTable (table : string).

Definition validate_entry (schemas : DatabaseType) (table chosenField : string)
  : list ValidationError :=
  match schemas !! table with
  | None => [UnknownTable table]
  | Some T =>
      (if decide (FindPrimaryKey T = ∅) then [NoCandidateKey table] else []) ++
      (if decide (chosenField ∈ FindPrimaryKey T) then []
       else [InvalidKeyChoice table chosenField])
  end.

End SpecValidator.

(** ** The storage engine, as far as [build] drives it *)

(** One declared version of a Dexie database: [db.version(n).stores(s)]. *)
Record Version : Type := mkVersion {
  version_number : Z;
  storesSource : gmap string string
}.

(** A Dexie object: its name and the versions declared on it. *)
Record Dexie : Type := mkDexie {
  name : string;
  _versions : list Version
}.

(** The objects allocated so far; a handle is the position of its object. *)
Abbreviation Heap := (list Dexie).
Abbreviation Handle := nat.

(** What the engine throws at [build]: [db.version] refuses a version below
    [0.1] ("Given version is not a positive number"), [stores] refuses a
    store specification it cannot turn into a table schema. *)
Inductive DexieError : Type :=
| InvalidVersion
| InvalidSchema.

#[global] Instance DexieError_eq_dec : EqDecision DexieError.
Proof. solve_decision. Defined.

(** Calls into the engine: they run on the heap and return or throw. *)
Definition Dx (A : Type) : Type := Heap → (DexieError + A) * Heap.

#[global] Instance Dx_ret : MRet Dx := λ A (a : A) h, (inr a, h).

#[global] Instance Dx_bind : MBind Dx := λ A B (k : A → Dx B) (m : Dx A) h,
  match m h with
  | (inl e, h') => (inl e, h')
  | (inr a, h') => k a h'
  end.

(** The store specifications of the latest version declared on a handle. *)
Definition declared_stores (h : Heap) (db : Handle) : option (gmap string string) :=
  o ← h !! db; storesSource <$> list.last (_versions o).

(** *** Dexie's syntax of a store specification

    A specification is a comma-separated list of entries; the first one
    describes the primary key. The engine reads the marks [++]
    (auto-incremented), [&] (unique) and [*] (multi-entry) off an entry and
    takes what is left as the name; a name in square brackets is a compound
    key. Whatever the marks, the primary key is unique. *)

Record IndexSpec : Type := mkIndexSpec {
  ix_name : string;
  ix_unique : bool;
  ix_multi : bool;
  ix_auto : bool
}.

Definition is_space (c : ascii) : bool :=
  let n := nat_of_ascii c in
  ((n =? 32) || ((9 <=? n) && (n <=? 13)))%nat.

(** [s.split(',')]. *)
Fixpoint split_comma (s : string) : list string :=
  match s with
  | EmptyString => [EmptyString]
  | String c r =>
      if (c =? ",")%char then EmptyString :: split_comma r
      else match split_comma r with
           | e :: es => String c e :: es
           | [] => [String c EmptyString]
           end
  end.

Fixpoint trim_left (s : string) : string :=
  match s with
  | EmptyString => EmptyString
  | String c r => if is_space c then trim_left r else s
  end.

Fixpoint trim_right (s : string) : string :=
  match s with
  | EmptyString => EmptyString
  | String c r =>
      match trim_right r with
      | EmptyString => if is_space c then EmptyString else String c EmptyString
      | r' => String c r'
      end
  end.

Definition trim (s : string) : string := trim_right (trim_left s).

(** [/\&/.test(index)] and the like. *)
Fixpoint contains_char (m : ascii) (s : string) : bool :=
  match s with
  | EmptyString => false
  | String c r => (c =? m)%char || contains_char m r
  end.

(** [/\+\+/.test(index)]. *)
Fixpoint contains_plusplus (s : string) : bool :=
  match s with
  | EmptyString => false
  | String c r =>
      match r with
      | String c' _ => ((c =? "+")%char && (c' =? "+")%char) || contains_plusplus r
      | EmptyString => false
      end
  end.

(** [index.replace(/([&*]|\+\+)/g, "")]. *)
Fixpoint remove_marks (s : string) : string :=
  match s with
  | EmptyString => EmptyString
  | String c r =>
      if ((c =? "&")%char || (c =? "*")%char)%bool then remove_marks r
      else if (c =? "+")%char then
        match r with
        | String c' r' =>
            if (c' =? "+")%char then remove_marks r' else String c (remove_marks r)
        | EmptyString => String c EmptyString
        end
      else String c (remove_marks r)
  end.

Fixpoint last_char (s : string) : option ascii :=
  match s with
  | EmptyString => None
  | String c r => match last_char r with None => Some c | Some c' => Some c' end
  end.

(** A name that opens a square bracket must close it at its end, on one
    line (the engine matches it against an opening bracket, any characters
    but line breaks, a closing bracket); the engine fails on any other. *)
Definition bracket_ok (name : string) : bool :=
  match name with
  | String c r =>
      if (c =? "[")%char
      then match last_char r with
           | Some c' =>
               (c' =? "]")%char
               && negb (contains_char "010" r || contains_char "013" r)
           | None => false
           end
      else true
  | EmptyString => true
  end.

(** One entry of a specification. *)
Definition parseIndex (entry : string) : option IndexSpec :=
  let index := trim entry in
  let name := remove_marks index in
  if bracket_ok name
  then Some (mkIndexSpec name (contains_char "&" index) (contains_char "*" index)
               (contains_plusplus index))
  else None.

(** [parseIndexSyntax(primKeyAndIndexes)]. *)
Definition parseIndexSyntax (primKeyAndIndexes : string) : option (list IndexSpec) :=
  mapM parseIndex (split_comma primKeyAndIndexes).

(** The primary key of the table schema the engine builds from a store
    specification, none when it refuses the specification: the primary key
    must not be multi-entry, the other entries must not be auto-incremented
    and must have a name; the primary key is made unique. *)
Definition parsePrimKey (storeSpec : string) : option IndexSpec :=
  indexes ← parseIndexSyntax storeSpec;
  match indexes with
  | [] => None
  | primKey :: indexes' =>
      if ix_multi primKey then None
      else if existsb (λ idx, ix_auto idx || bool_decide (ix_name idx = "")) indexes'
      then None
      else Some (mkIndexSpec (ix_name primKey) true (ix_multi primKey) (ix_auto primKey))
  end.

(** Names that carry none of the characters the syntax gives a meaning to. *)
Definition is_syntax (c : ascii) : bool :=
  ((c =? ",")%char || (c =? "&")%char || (c =? "*")%char || (c =? "+")%char
   || (c =? "[")%char || is_space c)%bool.

Fixpoint syntax_free (s : string) : bool :=
  match s with
  | EmptyString => true
  | String c r => negb (is_syntax c) && syntax_free r
  end.

(** The engine accepts a set of store specifications when it accepts each. *)
Definition stores_ok (stores : gmap string string) : bool :=
  bool_decide (map_Forall (λ _ storeSpec, is_Some (parsePrimKey storeSpec)) stores).

(** The engine goes through the versions of an object in order, each
    extending the specifications of the ones before it. *)
Fixpoint versions_ok (storesSpec : gmap string string) (versions : list Version) : bool :=
  match versions with
  | [] => true
  | v :: versions' =>
      stores_ok (storesSource v ∪ storesSpec)
      && versions_ok (storesSource v ∪ storesSpec) versions'
  end.

(** The versions of an object are kept one per number, lowest first. *)
Fixpoint add_version (n : Z) (versions : list Version) : list Version :=
  match versions with
  | [] => [mkVersion n ∅]
  | v :: versions' =>
      if decide (version_number v = n) then versions
      else if decide (n < version_number v) then mkVersion n ∅ :: versions
      else v :: add_version n versions'
  end.

Definition set_stores (n : Z) (stores : gmap string string) (versions : list Version)
  : list Version :=
  (λ v, if decide (version_number v = n)
        then mkVersion n (stores ∪ storesSource v) else v) <$> versions.

(** [new Dexie(dbName)]: a fresh object, with no version declared. *)
Definition new_Dexie (dbName : string) : Dx Handle :=
  λ h, (inr (List.length h), (h ++ [mkDexie dbName []])%list).

(** [db.version(versionNumber)]: throws below [0.1], that is below [1] for
    the integer versions taken here; otherwise the object has a version of
    that number, a new one without stores when it had none. *)
Definition Dexie_version (db : Handle) (versionNumber : Z) : Dx unit :=
  λ h, if decide (versionNumber < 1) then (inl InvalidVersion, h)
       else (inr (), alter (λ o, mkDexie (name o) (add_version versionNumber (_versions o)))
                       db h).

(** [.stores(stores)] on the version of that number: the specifications are
    recorded, then the schema of the object is rebuilt, which throws when a
    specification is refused. *)
Definition Version_stores (db : Handle) (versionNumber : Z)
    (stores : gmap string string) : Dx unit :=
  λ h, let h' := alter (λ o, mkDexie (name o)
                               (set_stores versionNumber stores (_versions o))) db h in
       match h' !! db with
       | Some o => if versions_ok ∅ (_versions o) then (inr (), h')
                   else (inl InvalidSchema, h')
       | None => (inr (), h')
       end.

(** The spec's [KeySpec], and the one an index specification stands for: a
    key is externally supplied when it is not auto-incremented. *)
Record KeySpec : Type := mkKeySpec {
  fieldName : string;
  unique : bool;
  externallySupplied : bool
}.

Definition KeySpec_of (ix : IndexSpec) : KeySpec :=
  mkKeySpec (ix_name ix) (ix_unique ix) (negb (ix_auto ix)).

(** ** The factory *)

(** The template literal of [build], [`${pk as string}`]: the chosen name and
    nothing else. *)
Definition store_spec (pk : string) : string := pk.

(** [Object.fromEntries(Object.entries(config).map(([tableName, pk]) =>
    [tableName, `${pk}`]))]. *)
Definition storesConfig (config : Config) : gmap string string :=
  list_to_map ((λ '(tableName, pk), (tableName, store_spec pk)) <$> map_to_list config).

(** What [createBuilder] returns: an object whose [build] closes over
    [config]. *)
Record Builder : Type := mkBuilder { builder_config : Config }.

(** [build(dbName, version)]: returns the handle, or throws what the engine
    throws. *)
Definition build (b : Builder) (dbName : string) (version : Z) : Dx Handle :=
  db ← new_Dexie dbName;
  _ ← Dexie_version db version;
  _ ← Version_stores db version (storesConfig (builder_config b));
  mret db.

(** [createBuilder<PKConfig extends PrimaryKeyConfig<KDatabase>>(config)]:
    a call whose argument breaks the constraint is rejected by the type
    checker, with its diagnostics; otherwise the builder is returned. *)
Definition createBuilder (KDatabase : DatabaseType) (config : Config)
  : gmap string Diagnostic + Builder :=
  if extends_PrimaryKeyConfig KDatabase config
  then inr (mkBuilder config)
  else inl (check_PrimaryKeyConfig KDatabase config).

(** [kyselyToDexieFactory<KDatabase>()]: binds the schema, returns
    [createBuilder]. *)
Definition kyselyToDexieFactory (KDatabase : DatabaseType)
  : Config → gmap string Diagnostic + Builder :=
  createBuilder KDatabase.

(** The whole chain,
    [kyselyToDexieFactory<KDatabase>()(config).build(dbName, version)]: the
    diagnostics of a rejected configuration, or what [build] returns or
    throws. *)
Definition factory_chain (KDatabase : DatabaseType) (config : Config)
    (dbName : string) (version : Z) (h : Heap)
  : (gmap string Diagnostic + (DexieError + Handle)) * Heap :=
  match kyselyToDexieFactory KDatabase config with
  | inl diagnostics => (inl diagnostics, h)
  | inr builder =>
      let '(result, h') := build builder dbName version h in (inr result, h')
  end.

(** The key specification a store specification stands for. *)
Definition KeySpec_of_spec (storeSpec : string) : option KeySpec :=
  KeySpec_of <$> parsePrimKey storeSpec.

(** The key specifications a handle carries: one per declared store. *)
Definition KeySpecs (h : Heap) (db : Handle) : option (gmap string KeySpec) :=
  (λ stores : gmap string string, omap KeySpec_of_spec stores)
    <$> declared_stores h db.

(** The key specifications [build] emits for a configuration: one per store
    specification the engine accepts. *)
Definition emit (config : Config) : gmap string KeySpec :=
  omap KeySpec_of_spec (storesConfig config).

(** ** Records and the operations of a table *)

(** The values a property of a stored object holds in the repository's
    schemas. *)
Inductive Value : Type :=
| VNumber (n : Z)
| VString (s : string)
| VBoolean (b : bool).

#[global] Instance Value_eq_dec : EqDecision Value.
Proof. solve_decision. Defined.

Definition Value_to_sum (v : Value) : Z + (string + bool) :=
  match v with
  | VNumber n => inl n
  | VString s => inr (inl s)
  | VBoolean b => inr (inr b)
  end.

Definition Value_of_sum (x : Z + (string + bool)) : Value :=
  match x with
  | inl n => VNumber n
  | inr (inl s) => VString s
  | inr (inr b) => VBoolean b
  end.

#[global] Instance Value_countable : Countable Value :=
  inj_countable' Value_to_sum Value_of_sum
    (λ v, match v with
          | VNumber _ | VString _ | VBoolean _ => eq_refl
          end).

(** A stored object: property name to value. *)
Abbreviation Entity := (gmap string Value).

(** The per-table operations of the materialized store handle belong to the
    storage engine behind it, which is not part of [src/]: the repository
    only calls them, from its tests. They are modelled from sections 6 and 7
    of the spec. *)
Module Store.

(** Modelled from the spec: the failure of [add] named in section 7, which
    the engine raises and [src/] does not define. *)
Inductive StoreError : Type := KeyMissingOnInsert.

(** Modelled from the spec: the state of one table of the store handle, which
    the engine keeps and [src/] does not define: the resolved key field and
    the stored objects, one per key value ([unique]). *)
Record Table : Type := mkTable {
  keyField : string;
  objects : gmap Value Entity
}.

(** The table a key specification materializes into, before any insert. *)
Definition materialize (ks : KeySpec) : Table := mkTable (fieldName ks) ∅.

(** Modelled from the spec: the engine's [add(record, explicitKey?) -> key],
    missing from [src/]. It requires the resolved key field to be present in
    [record], whether or not an explicit key is passed, and fails with
    [KeyMissingOnInsert] otherwise; the spec gives it no other failure. The
    key it returns is the value of the key field. *)
Definition add (record : Entity) (explicitKey : option Value) (t : Table)
  : (StoreError + Value) * Table :=
  match record !! keyField t with
  | None => (inl KeyMissingOnInsert, t)
  | Some key => (inr key, mkTable (keyField t) (<[key := record]> (objects t)))
  end.

(** Modelled from the spec: the engine's [get(key) -> record | absent],
    missing from [src/]. *)
Definition get (key : Value) (t : Table) : option Entity := objects t !! key.

(** Modelled from the spec: the engine's [toArray() -> sequence<record>],
    missing from [src/]. *)
Definition toArray (t : Table) : list Entity := (map_to_list (objects t)).*2.

End Store.

(** ** The databases behind the handles *)

(** Modelled from the spec: the storage behind a store handle, which the
    engine keeps and [src/] does not define. A handle is keyed by name and
    version (section 3), and the tests delete the storage of a handle by
    [db.name]: the engine holds one database per name, with its version and
    the tables of its stores. *)
Record Database : Type := mkDatabase {
  db_version : Z;
  db_tables : gmap string Store.Table
}.

Abbreviation IndexedDB := (gmap string Database).

(** Modelled from the spec: the engine's [open()], missing from [src/]. The
    database of the handle's name is created from the stores the handle
    declares when there is none, and is taken as it is when it exists under
    the version the handle declares. A database that exists under another
    version is a migration or a version error of the engine, which the spec
    leaves out (section 6); there is no result for it here. *)
Definition Dexie_open (h : Heap) (db : Handle) (idb : IndexedDB) : option IndexedDB :=
  o ← h !! db;
  ver ← list.last (_versions o);
  match idb !! name o with
  | None =>
      Some (<[name o :=
                mkDatabase (version_number ver)
                  (omap (λ storeSpec, Store.materialize <$> KeySpec_of_spec storeSpec)
                        (storesSource ver))]> idb)
  | Some d => if decide (db_version d = version_number ver) then Some idb else None
  end.

(** The table a handle reaches under a name, once its database is open: the
    handle exposes the stores it declares, and their objects are those of the
    database of the handle's name. *)
Definition handle_table (h : Heap) (db : Handle) (tableName : string)
    (idb : IndexedDB) : option Store.Table :=
  o ← h !! db;
  stores ← declared_stores h db;
  _ ← stores !! tableName;
  d ← idb !! name o;
  db_tables d !! tableName.

(** Modelled from the spec: [add] on a table of a handle, as the tests call
    it ([dxdb.users.add(record)]); the database is opened first when it is not
    yet, and the object is stored in the database of the handle's name. *)
Definition Table_add (h : Heap) (db : Handle) (tableName : string) (record : Entity)
    (idb : IndexedDB) : option ((Store.StoreError + Value) * IndexedDB) :=
  idb1 ← Dexie_open h db idb;
  o ← h !! db;
  d ← idb1 !! name o;
  tbl ← handle_table h db tableName idb1;
  let '(result, tbl') := Store.add record None tbl in
  Some (result,
        <[name o := mkDatabase (db_version d) (<[tableName := tbl']> (db_tables d))]> idb1).

(** Modelled from the spec: [get] on a table of a handle
    ([dxdb.users.get(key)]). *)
Definition Table_get (h : Heap) (db : Handle) (tableName : string) (key : Value)
    (idb : IndexedDB) : option (option Entity) :=
  idb1 ← Dexie_open h db idb;
  tbl ← handle_table h db tableName idb1;
  Some (Store.get key tbl).

(** Modelled from the spec: [toArray] on a table of a handle
    ([dxdb.users.toArray()]). *)
Definition Table_toArray (h : Heap) (db : Handle) (tableName : string)
    (idb : IndexedDB) : option (list Entity) :=
  idb1 ← Dexie_open h db idb;
  tbl ← handle_table h db tableName idb1;
  Some (Store.toArray tbl).

(** ** The schemas and configurations of the tests *)

Definition users_table : TableType :=
  {[ "id" := Generated TNumber; "name" := Plain TString ]}.

Definition products_table : TableType :=
  {[ "sku" := Generated TString; "name" := Plain TString; "price" := Plain TNumber ]}.

Definition ambiguous_items_table : TableType :=
  {[ "id1" := Generated TNumber; "id2" := Generated TString;
     "description" := Plain TString ]}.

Definition logs_table : TableType := {[ "message" := Plain TString ]}.

Definition TestDatabase : DatabaseType :=
  {[ "users" := users_table; "products" := products_table;
     "ambiguous_items" := ambiguous_items_table ]}.

Definition primaryKeyConfig : Config :=
  {[ "users" := "id"; "products" := "sku"; "ambiguous_items" := "id1" ]}.

Definition invalidConfig : Config :=
  {[ "users" := "id"; "products" := "sku"; "ambiguous_items" := "description" ]}.

Definition alice : Entity := {[ "id" := VNumber 123; "name" := VString "Alice" ]}.



(** The key specifications carried by the handle the chain returns; none when
    the configuration is rejected. *)
Definition chain_KeySpecs (KDatabase : DatabaseType) (config : Config)
    (dbName : string) (version : Z) (h : Heap) : option (gmap string KeySpec) :=
  match factory_chain KDatabase config dbName version h with
  | (inr (inr db), h') => KeySpecs h' db
  | _ => None
  end.

(** ** The types of the Dexie instance *)

(** Dexie's [EntityTable<T, TKeyPropName>], as the repository's types fill it
    in: the entity type and the type given for the key property. *)
Record EntityTable (K : Type) : Type := mkEntityTable {
  entity : gmap string ValueType;
  keyProp : K
}.

Arguments mkEntityTable {K} _ _.
Arguments entity {K} _.
Arguments keyProp {K} _.

(** [_DexieFromKysely<KDatabase>] (deprecated): every table as
    [EntityTable<Selectable<KDatabase[KTableName]>, FindPrimaryKey<KDatabase[KTableName]>>],
    the key typed by the whole union of candidates. *)
Definition _DexieFromKysely (KDatabase : DatabaseType)
  : gmap string (EntityTable (gset string)) :=
  (λ T, mkEntityTable (Selectable T) (FindPrimaryKey T)) <$> KDatabase.

(** [DexieFromKysely<KDatabase, PKConfig extends PrimaryKeyConfig<KDatabase>>]:
    every table of [KDatabase] as
    [EntityTable<Selectable<KDatabase[KTableName]>, PKConfig[KTableName]>]; the
    type exists for the configurations that meet the constraint. *)
Definition DexieFromKysely (KDatabase : DatabaseType) (PKConfig : Config)
  : option (gmap string (EntityTable string)) :=
  if extends_PrimaryKeyConfig KDatabase PKConfig
  then Some (map_imap (λ KTableName T,
                         mkEntityTable (Selectable T) <$> PKConfig !! KTableName)
                      KDatabase)
  else None.

(** ** The schema and configuration of the usage example *)

Definition Users : TableType :=
  {[ "id" := Generated TString; "otherId" := Generated TNumber;
     "age" := Plain TBoolean ]}.

Definition Groceries : TableType :=
  {[ "id" := Generated TString; "name" := Plain TString;
     "quantity" := Plain TNumber ]}.

Definition KyselyDatabase : DatabaseType :=
  {[ "groceries" := Groceries; "users" := Users ]}.

Definition example_primaryKeyConfig : Config :=
  {[ "groceries" := "id"; "users" := "otherId" ]}.

(** * Properties *)

(** ** Candidate keys *)

Section Detector.

Implicit Types (T : TableType) (k t f : string).

Lemma elem_of_generated_keys T k :
  k ∈ generated_keys T ↔ ∃ v, T !! k = Some (Generated v).
Proof.
  unfold generated_keys. rewrite elem_of_dom. split.
  - intros [c Hc]. apply map_lookup_filter_Some in Hc as [Hk Hg].
    destruct c as [v|v]; [by exists v | discriminate].
  - intros [v Hv]. exists (Generated v).
    by apply map_lookup_filter_Some.
Qed.

Lemma keyof_Selectable T : keyof (Selectable T) = dom T.
Proof. unfold keyof, Selectable. by rewrite dom_fmap_L. Qed.

Lemma elem_of_FindPrimaryKey T k :
  k ∈ FindPrimaryKey T ↔ ∃ v, T !! k = Some (Generated v).
Proof.
  unfold FindPrimaryKey. rewrite elem_of_intersection, keyof_Selectable.
  rewrite elem_of_generated_keys, elem_of_dom. split.
  - by intros [H _].
  - intros [v Hv]. split; [by exists v | by exists (Generated v)].
Qed.

Lemma elem_of_FindPrimaryKey_kind T k :
  k ∈ FindPrimaryKey T ↔ kind_of <$> T !! k = Some KGenerated.
Proof.
  rewrite elem_of_FindPrimaryKey. split.
  - intros [v ->]. done.
  - destruct (T !! k) as [[v|v]|] eqn:E; simpl; try discriminate.
    intros _. by exists v.
Qed.

End Detector.

(** C5: [FindPrimaryKey] yields exactly the names of the [Generated]
    properties of a table type: every member is a [Generated] property, no
    [Generated] property is left out, and a plain property is never a member;
    on [{a: Plain, b: Generated, c: Generated}] the result is the set
    [{b, c}], in whichever order it is written. *)
Theorem FindPrimaryKey_exactly_Generated :
  (∀ (T : TableType) (k : string),
      k ∈ FindPrimaryKey T ↔ kind_of <$> T !! k = Some KGenerated) ∧
  (∀ (T : TableType) (k : string) (v : ValueType),
      T !! k = Some (Plain v) → k ∉ FindPrimaryKey T) ∧
  (∀ (T : TableType) (k : string) (v : ValueType),
      T !! k = Some (Generated v) → k ∈ FindPrimaryKey T) ∧
  FindPrimaryKey abc_table = {[ "b"; "c" ]} ∧
  FindPrimaryKey abc_table = {[ "c"; "b" ]}.
Proof.
  split; [exact elem_of_FindPrimaryKey_kind |].
  split.
  { intros T k v Hk [w Hw]%elem_of_FindPrimaryKey. congruence. }
  split.
  { intros T k v Hk. apply elem_of_FindPrimaryKey. by exists v. }
  assert (H : FindPrimaryKey abc_table = {[ "b"; "c" ]}).
  { apply set_eq. intros k. rewrite elem_of_FindPrimaryKey.
    unfold abc_table. split.
    - intros [v Hv].
      destruct (decide (k = "a")) as [->|Ha]; [by simplify_map_eq |].
      destruct (decide (k = "b")) as [->|Hb]; [set_solver |].
      destruct (decide (k = "c")) as [->|Hc]; [set_solver |].
      by simplify_map_eq.
    - intros [->%elem_of_singleton | ->%elem_of_singleton]%elem_of_union;
        eexists; by simplify_map_eq. }
  split; [exact H |]. rewrite H. set_solver.
Qed.

Lemma FindPrimaryKey_exactly_Generated_witness :
  ("a" ∉ FindPrimaryKey abc_table) ∧ ("b" ∈ FindPrimaryKey abc_table).
Proof.
  split.
  - apply (proj1 (proj2 FindPrimaryKey_exactly_Generated) abc_table "a" TString).
    vm_compute. reflexivity.
  - apply (proj1 (proj2 (proj2 FindPrimaryKey_exactly_Generated))
             abc_table "b" TNumber).
    vm_compute. reflexivity.
Defined.

Section Validator.

Implicit Types (KDatabase : DatabaseType) (config : Config) (T : TableType)
  (t f : string).

Lemma lookup_check_PrimaryKeyConfig KDatabase config t :
  check_PrimaryKeyConfig KDatabase config !! t =
  check_property (FindPrimaryKey <$> KDatabase !! t) (config !! t).
Proof.
  unfold check_PrimaryKeyConfig, PrimaryKeyConfig.
  rewrite lookup_merge, lookup_fmap.
  by destruct (KDatabase !! t), (config !! t).
Qed.

Lemma extends_PrimaryKeyConfig_true KDatabase config :
  extends_PrimaryKeyConfig KDatabase config = true ↔
  ∀ t T, KDatabase !! t = Some T →
         ∃ f, config !! t = Some f ∧ f ∈ FindPrimaryKey T.
Proof.
  unfold extends_PrimaryKeyConfig. rewrite bool_decide_eq_true. split.
  - intros He t T Ht.
    assert (Hl : check_PrimaryKeyConfig KDatabase config !! t = None)
      by (by rewrite He).
    rewrite lookup_check_PrimaryKeyConfig, Ht in Hl. simpl in Hl.
    destruct (config !! t) as [f|]; [|discriminate].
    case_decide; [by exists f | discriminate].
  - intros Hall. apply map_eq. intros t.
    rewrite lookup_check_PrimaryKeyConfig, lookup_empty.
    destruct (KDatabase !! t) as [T|] eqn:Ht; [|done]. simpl.
    destruct (Hall t T Ht) as (f & -> & Hf). by rewrite decide_True.
Qed.

Lemma extends_PrimaryKeyConfig_false KDatabase config t d :
  check_PrimaryKeyConfig KDatabase config !! t = Some d →
  extends_PrimaryKeyConfig KDatabase config = false.
Proof.
  intros Hd. unfold extends_PrimaryKeyConfig.
  apply bool_decide_eq_false. intros He. by rewrite He in Hd.
Qed.

Lemma FindPrimaryKey_empty T :
  FindPrimaryKey T = ∅ ↔ ∀ k c, T !! k = Some c → kind_of c = KPlain.
Proof.
  split.
  - intros He k [v|v] Hk; [|done].
    assert (Hin : k ∈ FindPrimaryKey T) by (apply elem_of_FindPrimaryKey; eauto).
    rewrite He in Hin. by apply not_elem_of_empty in Hin.
  - intros Hall. apply set_eq. intros k. split; [|set_solver].
    intros [v Hv]%elem_of_FindPrimaryKey.
    by specialize (Hall k _ Hv).
Qed.

Lemma createBuilder_rejects KDatabase config t d :
  check_PrimaryKeyConfig KDatabase config !! t = Some d →
  createBuilder KDatabase config = inl (check_PrimaryKeyConfig KDatabase config).
Proof.
  intros Hd. unfold createBuilder.
  by rewrite (extends_PrimaryKeyConfig_false _ _ _ _ Hd).
Qed.

Lemma check_not_candidate KDatabase config t T f :
  KDatabase !! t = Some T → config !! t = Some f → f ∉ FindPrimaryKey T →
  check_PrimaryKeyConfig KDatabase config !! t
  = Some (NotAssignable f (FindPrimaryKey T)).
Proof.
  intros Ht Hf Hn. rewrite lookup_check_PrimaryKeyConfig, Ht, Hf. simpl.
  by rewrite decide_False.
Qed.

Lemma check_missing KDatabase config t T :
  KDatabase !! t = Some T → config !! t = None →
  check_PrimaryKeyConfig KDatabase config !! t = Some PropertyMissing.
Proof.
  intros Ht Hf. by rewrite lookup_check_PrimaryKeyConfig, Ht, Hf.
Qed.

(** The check of the types and the validator of the spec agree on every
    entry for a table of the database type. *)
Lemma check_agrees_with_validate_entry KDatabase config t T f :
  KDatabase !! t = Some T → config !! t = Some f →
  check_PrimaryKeyConfig KDatabase config !! t = None ↔
  SpecValidator.validate_entry KDatabase t f = [].
Proof.
  intros Ht Hf. rewrite lookup_check_PrimaryKeyConfig, Ht, Hf.
  unfold SpecValidator.validate_entry. rewrite Ht. simpl.
  destruct (decide (f ∈ FindPrimaryKey T)) as [Hin|Hn].
  - rewrite decide_False by (intros He; rewrite He in Hin; set_solver). done.
  - split; [discriminate |]. intros Happ.
    apply app_eq_nil in Happ as [_ Hnil]. discriminate.
Qed.

End Validator.

(** Closes a decidable proposition over closed terms by evaluation. *)
Ltac by_evaluation := apply (bool_decide_unpack _); vm_compute; exact I.

(** C3: when the configuration passes the check against the database type,
    the name it chooses for a table is one of that table's candidates, that
    is a [Generated] property of the table; a configuration that chooses a
    name outside the candidates is rejected: the checker reports, for that
    table, that the name is not assignable to the union of the candidates,
    no builder is returned, and this is the failure the spec's validator calls
    [InvalidKeyChoice]. *)
Theorem chosen_field_is_candidate
    (KDatabase : DatabaseType) (config : Config) (t : string) (T : TableType)
    (f : string) :
  KDatabase !! t = Some T →
  config !! t = Some f →
  (extends_PrimaryKeyConfig KDatabase config = true →
     f ∈ FindPrimaryKey T ∧ ∃ v, T !! f = Some (Generated v)) ∧
  (f ∉ FindPrimaryKey T →
     check_PrimaryKeyConfig KDatabase config !! t
       = Some (NotAssignable f (FindPrimaryKey T)) ∧
     extends_PrimaryKeyConfig KDatabase config = false ∧
     createBuilder KDatabase config = inl (check_PrimaryKeyConfig KDatabase config) ∧
     SpecValidator.InvalidKeyChoice t f ∈ SpecValidator.validate_entry KDatabase t f).
Proof.
  intros Ht Hf. split.
  - intros Hok.
    destruct (proj1 (extends_PrimaryKeyConfig_true _ _) Hok t T Ht) as (f' & Hf' & Hin).
    assert (f' = f) as -> by congruence.
    split; [done | by apply elem_of_FindPrimaryKey].
  - intros Hn.
    pose proof (check_not_candidate _ _ _ _ _ Ht Hf Hn) as Hd.
    split; [done |].
    split; [by eapply extends_PrimaryKeyConfig_false |].
    split; [by eapply createBuilder_rejects |].
    unfold SpecValidator.validate_entry. rewrite Ht.
    rewrite (decide_False (P := f ∈ FindPrimaryKey T)) by done.
    apply elem_of_app. right. apply list_elem_of_singleton. done.
Qed.

Lemma chosen_field_is_candidate_witness :
  ("id1" ∈ FindPrimaryKey ambiguous_items_table ∧
   ∃ v, ambiguous_items_table !! "id1" = Some (Generated v)) ∧
  (check_PrimaryKeyConfig TestDatabase invalidConfig !! "ambiguous_items"
     = Some (NotAssignable "description" (FindPrimaryKey ambiguous_items_table)) ∧
   extends_PrimaryKeyConfig TestDatabase invalidConfig = false ∧
   createBuilder TestDatabase invalidConfig
     = inl (check_PrimaryKeyConfig TestDatabase invalidConfig) ∧
   SpecValidator.InvalidKeyChoice "ambiguous_items" "description"
     ∈ SpecValidator.validate_entry TestDatabase "ambiguous_items" "description").
Proof.
  split.
  - apply (chosen_field_is_candidate TestDatabase primaryKeyConfig
             "ambiguous_items" ambiguous_items_table "id1");
      vm_compute; reflexivity.
  - apply (chosen_field_is_candidate TestDatabase invalidConfig
             "ambiguous_items" ambiguous_items_table "description");
      [vm_compute; reflexivity | vm_compute; reflexivity |].
    by_evaluation.
Defined.

(** C4: a table type without a [Generated] property has no candidate at all;
    no name is a valid choice for it, and a configuration for a database
    holding such a table never passes the check: whatever it gives for the
    table is reported as not assignable to [never] (the empty union), the
    failure the spec's validator calls [NoCandidateKey], and no builder is
    returned. *)
Theorem no_Generated_no_valid_choice (T : TableType) :
  map_Forall (λ _ c, kind_of c = KPlain) T →
  FindPrimaryKey T = ∅ ∧
  (∀ f : string, f ∉ FindPrimaryKey T) ∧
  (∀ (KDatabase : DatabaseType) (config : Config) (t : string),
      KDatabase !! t = Some T →
      extends_PrimaryKeyConfig KDatabase config = false ∧
      createBuilder KDatabase config = inl (check_PrimaryKeyConfig KDatabase config) ∧
      (∀ f : string, config !! t = Some f →
         check_PrimaryKeyConfig KDatabase config !! t = Some (NotAssignable f ∅) ∧
         SpecValidator.NoCandidateKey t ∈ SpecValidator.validate_entry KDatabase t f)).
Proof.
  intros Hplain.
  assert (He : FindPrimaryKey T = ∅) by (by apply FindPrimaryKey_empty).
  split; [done |]. split; [rewrite He; set_solver |].
  intros KDatabase config t Ht.
  assert (Hd : ∃ d, check_PrimaryKeyConfig KDatabase config !! t = Some d).
  { destruct (config !! t) as [f|] eqn:Hf.
    - eexists. apply (check_not_candidate _ _ _ _ _ Ht Hf). rewrite He. set_solver.
    - eexists. by apply (check_missing _ _ _ T). }
  destruct Hd as [d Hd].
  split; [by eapply extends_PrimaryKeyConfig_false |].
  split; [by eapply createBuilder_rejects |].
  intros f Hf. split.
  - rewrite <- He. apply (check_not_candidate _ _ _ _ _ Ht Hf). rewrite He. set_solver.
  - unfold SpecValidator.validate_entry. rewrite Ht.
    rewrite (decide_True (P := FindPrimaryKey T = ∅)) by done.
    apply elem_of_app. left. apply list_elem_of_singleton. done.
Qed.

Lemma no_Generated_no_valid_choice_witness :
  FindPrimaryKey logs_table = ∅ ∧
  (∀ f : string, f ∉ FindPrimaryKey logs_table) ∧
  (∀ (KDatabase : DatabaseType) (config : Config) (t : string),
      KDatabase !! t = Some logs_table →
      extends_PrimaryKeyConfig KDatabase config = false ∧
      createBuilder KDatabase config = inl (check_PrimaryKeyConfig KDatabase config) ∧
      (∀ f : string, config !! t = Some f →
         check_PrimaryKeyConfig KDatabase config !! t = Some (NotAssignable f ∅) ∧
         SpecValidator.NoCandidateKey t ∈ SpecValidator.validate_entry KDatabase t f)).
Proof.
  apply (no_Generated_no_valid_choice logs_table).
  by_evaluation.
Defined.

(** ** Names without syntax characters are read back as they are *)

Lemma is_syntax_false (c : ascii) :
  is_syntax c = false →
  (c =? ",")%char = false ∧ (c =? "&")%char = false ∧ (c =? "*")%char = false ∧
  (c =? "+")%char = false ∧ (c =? "[")%char = false ∧ is_space c = false.
Proof.
  unfold is_syntax. rewrite !orb_false_iff. tauto.
Qed.

Lemma syntax_free_cons (c : ascii) (r : string) :
  syntax_free (String c r) = true → is_syntax c = false ∧ syntax_free r = true.
Proof.
  simpl. rewrite andb_true_iff, negb_true_iff. tauto.
Qed.

Lemma split_comma_syntax_free (s : string) :
  syntax_free s = true → split_comma s = [s].
Proof.
  induction s as [|c r IH]; [done |].
  intros [Hc Hr]%syntax_free_cons.
  apply is_syntax_false in Hc as (Hcomma & _).
  simpl. rewrite Hcomma. by rewrite (IH Hr).
Qed.


Lemma trim_right_cons (c : ascii) (r : string) :
  is_space c = false → trim_right r = r → trim_right (String c r) = String c r.
Proof.
  intros Hc Hr. simpl. rewrite Hr. destruct r; [by rewrite Hc | done].
Qed.

Lemma trim_right_syntax_free (s : string) :
  syntax_free s = true → trim_right s = s.
Proof.
  induction s as [|c r IH]; [done |].
  intros [Hc Hr]%syntax_free_cons.
  apply is_syntax_false in Hc as (_ & _ & _ & _ & _ & Hsp).
  by apply trim_right_cons; [| apply IH].
Qed.


Lemma contains_char_syntax_free (m : ascii) (s : string) :
  is_syntax m = true → syntax_free s = true → contains_char m s = false.
Proof.
  intros Hm. induction s as [|c r IH]; [done |].
  intros [Hc Hr]%syntax_free_cons. simpl. rewrite (IH Hr), orb_false_r.
  destruct (Ascii.eqb_spec c m) as [->|]; [congruence | done].
Qed.


Lemma remove_marks_syntax_free (s : string) :
  syntax_free s = true → remove_marks s = s.
Proof.
  induction s as [|c r IH]; [done |].
  intros [Hc Hr]%syntax_free_cons.
  apply is_syntax_false in Hc as (_ & Hamp & Hstar & Hplus & _).
  simpl. by rewrite Hamp, Hstar, Hplus, (IH Hr).
Qed.

Lemma bracket_ok_syntax_free (s : string) :
  syntax_free s = true → bracket_ok s = true.
Proof.
  destruct s as [|c r]; [done |].
  intros [Hc Hr]%syntax_free_cons.
  apply is_syntax_false in Hc as (_ & _ & _ & _ & Hbr & _).
  simpl. by rewrite Hbr.
Qed.


Lemma parsePrimKey_plusplus (s : string) :
  syntax_free s = true →
  parsePrimKey ("++" +:+ s) = Some (mkIndexSpec s true false true).
Proof.
  intros Hs. change ("++" +:+ s) with (String "+" (String "+" s)).
  unfold parsePrimKey, parseIndexSyntax.
  assert (Hsplit : split_comma (String "+" (String "+" s)) = [String "+" (String "+" s)])
    by (simpl; by rewrite (split_comma_syntax_free _ Hs)).
  assert (Htrim : trim (String "+" (String "+" s)) = String "+" (String "+" s)).
  { unfold trim. simpl trim_left.
    apply trim_right_cons; [done |]. apply trim_right_cons; [done |].
    by apply trim_right_syntax_free. }
  rewrite Hsplit. simpl mapM. unfold parseIndex. rewrite Htrim.
  assert (Hname : remove_marks (String "+" (String "+" s)) = s)
    by (simpl; by apply remove_marks_syntax_free).
  assert (Hamp : contains_char "&" (String "+" (String "+" s)) = false)
    by (simpl; by apply contains_char_syntax_free).
  assert (Hstar : contains_char "*" (String "+" (String "+" s)) = false)
    by (simpl; by apply contains_char_syntax_free).
  assert (Hpp : contains_plusplus (String "+" (String "+" s)) = true) by done.
  by rewrite Hname, Hamp, Hstar, Hpp, (bracket_ok_syntax_free _ Hs).
Qed.

(** What the engine makes of some specifications: the bare name, the [&]
    prefix the comment in [build] describes, the auto-increment mark, a
    multi-entry primary key, a list of entries. *)
Example parsePrimKey_examples :
  parsePrimKey "id" = Some (mkIndexSpec "id" true false false) ∧
  parsePrimKey "&id" = Some (mkIndexSpec "id" true false false) ∧
  parsePrimKey "++id" = Some (mkIndexSpec "id" true false true) ∧
  parsePrimKey "*tags" = None ∧
  parsePrimKey "id, name" = Some (mkIndexSpec "id" true false false).
Proof. repeat split; reflexivity. Qed.

(** ** The factory *)

Lemma storesConfig_lookup (config : Config) (t : string) :
  storesConfig config !! t = store_spec <$> config !! t.
Proof.
  unfold storesConfig.
  rewrite (list_fmap_ext _ (prod_map id store_spec) (map_to_list config))
    by (by intros ? [? ?] ?).
  by rewrite list_to_map_fmap, list_to_map_to_list, lookup_fmap.
Qed.

Lemma storesConfig_config (config : Config) : storesConfig config = config.
Proof.
  apply map_eq. intros t. rewrite storesConfig_lookup.
  by destruct (config !! t).
Qed.

Lemma emit_lookup (config : Config) (t : string) :
  emit config !! t = config !! t ≫= KeySpec_of_spec.
Proof. unfold emit. by rewrite storesConfig_config, lookup_omap. Qed.

(** The three outcomes of [build]: the version is refused and the object is
    left without a version; a specification is refused after it was
    recorded; the handle is returned. *)
Lemma build_outcome (b : Builder) (dbName : string) (version : Z) (h : Heap) :
  build b dbName version h =
  if decide (version < 1)
  then (inl InvalidVersion, (h ++ [mkDexie dbName []])%list)
  else if stores_ok (builder_config b)
  then (inr (List.length h),
        (h ++ [mkDexie dbName [mkVersion version (builder_config b)]])%list)
  else (inl InvalidSchema,
        (h ++ [mkDexie dbName [mkVersion version (builder_config b)]])%list).
Proof.
  unfold build, mbind, Dx_bind, mret, Dx_ret, new_Dexie, Dexie_version, Version_stores.
  rewrite storesConfig_config.
  destruct (decide (version < 1)) as [Hlow|Hok]; [done |].
  assert (Halter : ∀ (f : Dexie → Dexie) (o : Dexie),
             alter f (List.length h) (h ++ [o])%list = (h ++ [f o])%list).
  { intros f o. rewrite <- (Nat.add_0_r (List.length h)) at 1.
    by rewrite alter_app_r. }
  rewrite !Halter. simpl. rewrite decide_True by done.
  rewrite list_lookup_middle by done. simpl.
  rewrite !(right_id (∅ : gmap string string) (∪)), andb_true_r.
  by destruct (stores_ok (builder_config b)).
Qed.

Lemma factory_chain_rejects KDatabase config dbName version (h : Heap) :
  extends_PrimaryKeyConfig KDatabase config = false →
  factory_chain KDatabase config dbName version h
  = (inl (check_PrimaryKeyConfig KDatabase config), h).
Proof.
  intros Hno. unfold factory_chain, kyselyToDexieFactory, createBuilder.
  by rewrite Hno.
Qed.

Lemma factory_chain_checked KDatabase config dbName version (h : Heap) :
  extends_PrimaryKeyConfig KDatabase config = true →
  factory_chain KDatabase config dbName version h
  = (inr (build (mkBuilder config) dbName version h).1,
     (build (mkBuilder config) dbName version h).2).
Proof.
  intros Hok. unfold factory_chain, kyselyToDexieFactory, createBuilder.
  rewrite Hok. by destruct (build (mkBuilder config) dbName version h).
Qed.

Lemma factory_chain_accepts KDatabase config dbName version (h : Heap) :
  extends_PrimaryKeyConfig KDatabase config = true →
  1 ≤ version →
  stores_ok config = true →
  factory_chain KDatabase config dbName version h
  = (inr (inr (List.length h)),
     (h ++ [mkDexie dbName [mkVersion version config]])%list).
Proof.
  intros Hok Hver Hstores. rewrite (factory_chain_checked _ _ _ _ _ Hok).
  rewrite build_outcome. simpl. rewrite decide_False by lia. by rewrite Hstores.
Qed.

(** A handle comes out of the chain only in one way. *)
Lemma factory_chain_built KDatabase config dbName version (h h' : Heap) (db : Handle) :
  factory_chain KDatabase config dbName version h = (inr (inr db), h') →
  extends_PrimaryKeyConfig KDatabase config = true ∧
  1 ≤ version ∧
  stores_ok config = true ∧
  db = List.length h ∧
  h' = (h ++ [mkDexie dbName [mkVersion version config]])%list.
Proof.
  intros Hrun.
  destruct (extends_PrimaryKeyConfig KDatabase config) eqn:Hok;
    [| rewrite (factory_chain_rejects _ _ _ _ _ Hok) in Hrun; discriminate].
  rewrite (factory_chain_checked _ _ _ _ _ Hok), build_outcome in Hrun.
  simpl in Hrun.
  destruct (decide (version < 1)); [discriminate |].
  destruct (stores_ok config) eqn:Hstores; [| discriminate].
  injection Hrun as <- <-. repeat split; try done; lia.
Qed.

Lemma declared_stores_new (h : Heap) (dbName : string) (version : Z)
    (stores : gmap string string) :
  declared_stores (h ++ [mkDexie dbName [mkVersion version stores]])%list
    (List.length h) = Some stores.
Proof. unfold declared_stores. by rewrite list_lookup_middle. Qed.

Lemma KeySpecs_new (h : Heap) (dbName : string) (version : Z)
    (stores : gmap string string) :
  KeySpecs (h ++ [mkDexie dbName [mkVersion version stores]])%list (List.length h)
  = Some (omap KeySpec_of_spec stores).
Proof. unfold KeySpecs. by rewrite declared_stores_new. Qed.


(** C6: the check of the configuration stands before [build]. If the checker
    reports anything for any table of the database type, the chain gives
    back the diagnostics, no builder exists to call [build] on, and no Dexie
    object is created (the heap is the one the chain started from), whatever
    the other entries are. [build] is reached, to return or to throw, only
    when every table of the database type has an entry that is one of its
    candidates. The handle it returns declares the configuration as it is,
    entries that name no table of the database type included. *)
Theorem validation_before_materialization
    (KDatabase : DatabaseType) (config : Config) (dbName : string) (version : Z)
    (h : Heap) :
  (∀ (t : string) (d : Diagnostic),
      check_PrimaryKeyConfig KDatabase config !! t = Some d →
      kyselyToDexieFactory KDatabase config
        = inl (check_PrimaryKeyConfig KDatabase config) ∧
      factory_chain KDatabase config dbName version h
        = (inl (check_PrimaryKeyConfig KDatabase config), h)) ∧
  (∀ (result : DexieError + Handle) (h' : Heap),
      factory_chain KDatabase config dbName version h = (inr result, h') →
      check_PrimaryKeyConfig KDatabase config = ∅ ∧
      (∀ (t : string) (T : TableType), KDatabase !! t = Some T →
         ∃ f, config !! t = Some f ∧ f ∈ FindPrimaryKey T)) ∧
  (∀ (db : Handle) (h' : Heap),
      factory_chain KDatabase config dbName version h = (inr (inr db), h') →
      h' = (h ++ [mkDexie dbName [mkVersion version config]])%list ∧
      declared_stores h' db = Some config).
Proof.
  split; [| split].
  - intros t d Hd. split; [by eapply createBuilder_rejects |].
    apply factory_chain_rejects. by eapply extends_PrimaryKeyConfig_false.
  - intros result h' Hrun.
    destruct (extends_PrimaryKeyConfig KDatabase config) eqn:Hok;
      [| rewrite (factory_chain_rejects _ _ _ _ _ Hok) in Hrun; discriminate].
    split; [by apply bool_decide_eq_true in Hok |].
    by apply extends_PrimaryKeyConfig_true.
  - intros db h' Hrun.
    apply factory_chain_built in Hrun as (_ & _ & _ & -> & ->).
    split; [done | apply declared_stores_new].
Qed.

Lemma validation_before_materialization_witness :
  (kyselyToDexieFactory TestDatabase invalidConfig
     = inl (check_PrimaryKeyConfig TestDatabase invalidConfig) ∧
   factory_chain TestDatabase invalidConfig "schema-test-db" 1 []
     = (inl (check_PrimaryKeyConfig TestDatabase invalidConfig), [])) ∧
  (check_PrimaryKeyConfig TestDatabase primaryKeyConfig = ∅ ∧
   (∀ (t : string) (T : TableType), TestDatabase !! t = Some T →
      ∃ f, primaryKeyConfig !! t = Some f ∧ f ∈ FindPrimaryKey T)) ∧
  ([mkDexie "schema-test-db" [mkVersion 1 primaryKeyConfig]]
   = ([] ++ [mkDexie "schema-test-db" [mkVersion 1 primaryKeyConfig]])%list ∧
   declared_stores [mkDexie "schema-test-db" [mkVersion 1 primaryKeyConfig]] 0
   = Some primaryKeyConfig).
Proof.
  split; [| split].
  - apply (proj1 (validation_before_materialization
                    TestDatabase invalidConfig "schema-test-db" 1 [])
             "ambiguous_items"
             (NotAssignable "description" (FindPrimaryKey ambiguous_items_table))).
    vm_compute. reflexivity.
  - apply (proj1 (proj2 (validation_before_materialization
                           TestDatabase primaryKeyConfig "schema-test-db" 1 []))
             (inr 0%nat) [mkDexie "schema-test-db" [mkVersion 1 primaryKeyConfig]]).
    vm_compute. reflexivity.
  - apply (proj2 (proj2 (validation_before_materialization
                           TestDatabase primaryKeyConfig "schema-test-db" 1 []))
             0%nat).
    vm_compute. reflexivity.
Defined.

(** C6, as the claim states it, fails: a handle is returned for a
    configuration that holds an entry the validator of the spec refuses
    ([UnknownTable]): the entry ["logs" := "message"] beside the entries of
    the usage example passes the constraint and is declared as a store. *)
Lemma partially_valid_mapping_is_materialized :
  ¬ (∀ (KDatabase : DatabaseType) (config : Config) (dbName : string)
       (version : Z) (h h' : Heap) (db : Handle) (t f : string),
       factory_chain KDatabase config dbName version h = (inr (inr db), h') →
       config !! t = Some f →
       SpecValidator.validate_entry KDatabase t f = []).
Proof.
  intros Hclaim.
  pose proof (Hclaim KyselyDatabase (<["logs" := "message"]> example_primaryKeyConfig)
                "localdb" 1 []
                [mkDexie "localdb"
                   [mkVersion 1 (<["logs" := "message"]> example_primaryKeyConfig)]]
                0%nat "logs" "message") as H.
  assert (Hrefused : SpecValidator.validate_entry KyselyDatabase "logs" "message"
                     = [SpecValidator.UnknownTable "logs"]) by (vm_compute; reflexivity).
  rewrite Hrefused in H.
  assert (Hnil : [SpecValidator.UnknownTable "logs"] = []); [| discriminate].
  apply H; vm_compute; reflexivity.
Qed.




(** ** Two handles and the databases behind them *)

Section Storage.

Implicit Types (h : Heap) (db : Handle) (idb : IndexedDB) (o : Dexie)
  (t : string) (record : Entity) (key : Value).

(** Opening leaves the other databases alone, and the database of the
    handle's name is then there, under the declared version. *)
Lemma Dexie_open_Some h db idb idb1 dbName version stores :
  h !! db = Some (mkDexie dbName [mkVersion version stores]) →
  Dexie_open h db idb = Some idb1 →
  (∃ d, idb1 !! dbName = Some d ∧ db_version d = version) ∧
  (∀ n, n ≠ dbName → idb1 !! n = idb !! n) ∧
  (is_Some (idb !! dbName) → idb1 = idb).
Proof.
  intros Hdb. unfold Dexie_open. rewrite Hdb. simpl.
  destruct (idb !! dbName) as [d|] eqn:Hd.
  - case_decide as Hver; [| discriminate]. intros [= <-].
    split; [by exists d |]. split; done.
  - intros [= <-]. split.
    + eexists. split; [apply lookup_insert_eq | done].
    + split; [| by intros [? ?]]. intros n Hn. by rewrite lookup_insert_ne.
Qed.

(** What a handle reads depends on the database of its own name only. *)
Lemma handle_table_local h db idb idb' dbName versions t :
  h !! db = Some (mkDexie dbName versions) →
  idb !! dbName = idb' !! dbName →
  handle_table h db t idb = handle_table h db t idb'.
Proof.
  intros Hdb Heq. unfold handle_table. rewrite Hdb. simpl. by rewrite Heq.
Qed.

Lemma opened_table_local h db idb idb' dbName versions t :
  h !! db = Some (mkDexie dbName versions) →
  idb !! dbName = idb' !! dbName →
  (Dexie_open h db idb ≫= handle_table h db t)
  = (Dexie_open h db idb' ≫= handle_table h db t).
Proof.
  intros Hdb Heq. unfold Dexie_open. rewrite Hdb. simpl.
  destruct (list.last versions) as [ver|]; [| done]. simpl.
  rewrite <- Heq. destruct (idb !! dbName) as [d|] eqn:Hd.
  - case_decide; [| done]. simpl.
    apply (handle_table_local _ _ _ _ dbName versions); [done | congruence].
  - simpl. apply (handle_table_local _ _ _ _ dbName versions); [done |].
    by rewrite !lookup_insert_eq.
Qed.

Lemma Table_get_opened h db idb t key :
  Table_get h db t key idb
  = (Dexie_open h db idb ≫= handle_table h db t) ≫= λ tbl, Some (Store.get key tbl).
Proof. unfold Table_get. by destruct (Dexie_open h db idb). Qed.

Lemma Table_toArray_opened h db idb t :
  Table_toArray h db t idb
  = (Dexie_open h db idb ≫= handle_table h db t) ≫= λ tbl, Some (Store.toArray tbl).
Proof. unfold Table_toArray. by destruct (Dexie_open h db idb). Qed.

Lemma Table_get_local h db idb idb' dbName versions t key :
  h !! db = Some (mkDexie dbName versions) →
  idb !! dbName = idb' !! dbName →
  Table_get h db t key idb = Table_get h db t key idb'.
Proof.
  intros Hdb Heq. rewrite !Table_get_opened.
  by rewrite (opened_table_local _ _ _ _ _ _ t Hdb Heq).
Qed.

Lemma Table_toArray_local h db idb idb' dbName versions t :
  h !! db = Some (mkDexie dbName versions) →
  idb !! dbName = idb' !! dbName →
  Table_toArray h db t idb = Table_toArray h db t idb'.
Proof.
  intros Hdb Heq. rewrite !Table_toArray_opened.
  by rewrite (opened_table_local _ _ _ _ _ _ t Hdb Heq).
Qed.

(** What [add] through a handle does to the databases. *)
Lemma Table_add_Some h db idb idb' dbName version stores t record result :
  h !! db = Some (mkDexie dbName [mkVersion version stores]) →
  Table_add h db t record idb = Some (result, idb') →
  ∃ d tbl,
    is_Some (stores !! t) ∧
    db_tables d !! t = Some tbl ∧
    result = (Store.add record None tbl).1 ∧
    idb' !! dbName
    = Some (mkDatabase version (<[t := (Store.add record None tbl).2]> (db_tables d))) ∧
    (∀ n, n ≠ dbName → idb' !! n = idb !! n).
Proof.
  intros Hdb. unfold Table_add.
  destruct (Dexie_open h db idb) as [idb1|] eqn:Hopen; [| discriminate]. simpl.
  destruct (Dexie_open_Some _ _ _ _ _ _ _ Hdb Hopen) as ((d & Hd & Hver) & Hother & _).
  rewrite Hdb. simpl. rewrite Hd. simpl.
  unfold handle_table, declared_stores. rewrite Hdb. simpl.
  destruct (stores !! t) as [storeSpec|] eqn:Hspec; [| discriminate]. simpl.
  rewrite Hd. simpl.
  destruct (db_tables d !! t) as [tbl|] eqn:Htbl; [| discriminate]. simpl.
  destruct (Store.add record None tbl) as [r tbl'] eqn:Hadd.
  intros [= <- <-]. exists d, tbl. rewrite Hadd. simpl.
  split; [by eexists |]. split; [done |]. split; [done |].
  split; [by rewrite lookup_insert_eq, Hver |].
  intros n Hn. rewrite lookup_insert_ne by done. by apply Hother.
Qed.

End Storage.
(** C7: the chain is a function of its inputs as far as the key
    specifications go: started from any two heaps it yields the same ones.
    Run twice in a row with the same schema, configuration and version, both
    handles carry the key specifications of the configuration's entries, and
    they are two different objects. Their storage is the database the engine
    keeps under the name: with the same name, what is added through the
    first handle is read through the second; with different names, an [add]
    through the first changes nothing of what the second reads. *)
Theorem factory_chain_twice
    (KDatabase : DatabaseType) (config : Config) (dbName dbName' : string)
    (version : Z) (h : Heap) :
  (∀ h0 : Heap,
      chain_KeySpecs KDatabase config dbName version h
      = chain_KeySpecs KDatabase config dbName version h0) ∧
  (∀ (db1 db2 : Handle) (h1 h2 : Heap),
      factory_chain KDatabase config dbName version h = (inr (inr db1), h1) →
      factory_chain KDatabase config dbName' version h1 = (inr (inr db2), h2) →
      KeySpecs h1 db1 = Some (omap KeySpec_of_spec config) ∧
      KeySpecs h2 db2 = Some (omap KeySpec_of_spec config) ∧
      KeySpecs h2 db1 = KeySpecs h2 db2 ∧
      db1 ≠ db2 ∧
      h2 !! db1 = h1 !! db1 ∧
      (dbName' = dbName →
       ∀ (idb idb' : IndexedDB) (t : string) (record : Entity) (key : Value),
         Table_add h2 db1 t record idb = Some (inr key, idb') →
         Table_get h2 db2 t key idb' = Some (Some record)) ∧
      (dbName' ≠ dbName →
       ∀ (idb idb' : IndexedDB) (t : string) (record : Entity)
         (result : Store.StoreError + Value),
         Table_add h2 db1 t record idb = Some (result, idb') →
         ∀ t' : string,
           Table_toArray h2 db2 t' idb' = Table_toArray h2 db2 t' idb ∧
           ∀ key : Value, Table_get h2 db2 t' key idb' = Table_get h2 db2 t' key idb)).
Proof.
  split.
  - intros h0. unfold chain_KeySpecs.
    destruct (extends_PrimaryKeyConfig KDatabase config) eqn:Hok.
    + rewrite !(factory_chain_checked _ _ _ _ _ Hok), !build_outcome.
      cbn [builder_config].
      destruct (decide (version < 1)); [done |].
      destruct (stores_ok config); [| done]. cbn [fst snd].
      by rewrite !KeySpecs_new.
    + by rewrite !(factory_chain_rejects _ _ _ _ _ Hok).
  - intros db1 db2 h1 h2 H1 H2.
    apply factory_chain_built in H1 as (_ & _ & _ & -> & ->).
    apply factory_chain_built in H2 as (_ & _ & _ & -> & ->).
    set (o := mkDexie dbName [mkVersion version config]).
    set (o' := mkDexie dbName' [mkVersion version config]).
    assert (Hlen : List.length (h ++ [o])%list = S (List.length h))
      by (rewrite length_app; simpl; lia).
    assert (H21 : ((h ++ [o]) ++ [o'])%list !! List.length h = Some o).
    { rewrite lookup_app_l by lia. by rewrite list_lookup_middle. }
    assert (H22 : ((h ++ [o]) ++ [o'])%list !! List.length (h ++ [o])%list = Some o')
      by (by rewrite list_lookup_middle).
    split; [apply KeySpecs_new |]. split; [apply KeySpecs_new |].
    split; [unfold KeySpecs, declared_stores; by rewrite H21, H22 |].
    split; [lia |].
    split; [by rewrite lookup_app_l by lia |].
    split.
    + intros -> idb idb' t record key Hadd.
      destruct (Table_add_Some _ _ _ _ _ _ _ _ _ _ H21 Hadd)
        as (d & tbl & [storeSpec Hspec] & Htbl & Hres & Hidb' & _).
      rewrite Table_get_opened. unfold Dexie_open. rewrite H22. simpl.
      rewrite Hidb'. simpl. rewrite decide_True by done. simpl.
      unfold handle_table, declared_stores. rewrite H22. simpl.
      rewrite Hspec. simpl. rewrite Hidb'. simpl.
      rewrite lookup_insert_eq. simpl. f_equal.
      unfold Store.add in *. destruct (record !! Store.keyField tbl) as [k|];
        [| discriminate]. simpl in *. injection Hres as ->.
      unfold Store.get. simpl. apply lookup_insert_eq.
    + intros Hne idb idb' t record result Hadd t'.
      destruct (Table_add_Some _ _ _ _ _ _ _ _ _ _ H21 Hadd)
        as (_ & _ & _ & _ & _ & _ & Hother).
      split; [| intros key].
      * by apply (Table_toArray_local _ _ _ _ _ _ _ H22), Hother.
      * by apply (Table_get_local _ _ _ _ _ _ _ _ H22), Hother.
Qed.

Lemma factory_chain_twice_witness :
  KeySpecs [mkDexie "schema-test-db" [mkVersion 1 primaryKeyConfig]] 0
  = Some (omap KeySpec_of_spec primaryKeyConfig) ∧
  KeySpecs [mkDexie "schema-test-db" [mkVersion 1 primaryKeyConfig];
            mkDexie "schema-test-db" [mkVersion 1 primaryKeyConfig]] 1
  = Some (omap KeySpec_of_spec primaryKeyConfig) ∧
  KeySpecs [mkDexie "schema-test-db" [mkVersion 1 primaryKeyConfig];
            mkDexie "schema-test-db" [mkVersion 1 primaryKeyConfig]] 0
  = KeySpecs [mkDexie "schema-test-db" [mkVersion 1 primaryKeyConfig];
              mkDexie "schema-test-db" [mkVersion 1 primaryKeyConfig]] 1 ∧
  0%nat ≠ 1%nat.
Proof.
  pose proof (proj2 (factory_chain_twice TestDatabase primaryKeyConfig
                       "schema-test-db" "schema-test-db" 1 [])
                0%nat 1%nat
                [mkDexie "schema-test-db" [mkVersion 1 primaryKeyConfig]]
                [mkDexie "schema-test-db" [mkVersion 1 primaryKeyConfig];
                 mkDexie "schema-test-db" [mkVersion 1 primaryKeyConfig]]) as H.
  assert (H1 : factory_chain TestDatabase primaryKeyConfig "schema-test-db" 1 []
               = (inr (inr 0%nat),
                  [mkDexie "schema-test-db" [mkVersion 1 primaryKeyConfig]]))
    by (vm_compute; reflexivity).
  assert (H2 : factory_chain TestDatabase primaryKeyConfig "schema-test-db" 1
                 [mkDexie "schema-test-db" [mkVersion 1 primaryKeyConfig]]
               = (inr (inr 1%nat),
                  [mkDexie "schema-test-db" [mkVersion 1 primaryKeyConfig];
                   mkDexie "schema-test-db" [mkVersion 1 primaryKeyConfig]]))
    by (vm_compute; reflexivity).
  destruct (H H1 H2) as (Ha & Hb & Hc & Hd & _).
  exact (conj Ha (conj Hb (conj Hc Hd))).
Defined.

(** C7, as the claim states it, fails: two handles built with the same inputs
    are not independent storage instances. After the test's chain is run
    twice, the object added to [users] through the first handle is in what
    [toArray] returns through the second, which returned nothing before. *)
Lemma same_name_handles_share_storage :
  ¬ (∀ (KDatabase : DatabaseType) (config : Config) (dbName : string) (version : Z)
       (h h1 h2 : Heap) (db1 db2 : Handle) (idb idb' : IndexedDB) (t : string)
       (record : Entity) (result : Store.StoreError + Value),
       factory_chain KDatabase config dbName version h = (inr (inr db1), h1) →
       factory_chain KDatabase config dbName version h1 = (inr (inr db2), h2) →
       Table_add h2 db1 t record idb = Some (result, idb') →
       Table_toArray h2 db2 t idb' = Table_toArray h2 db2 t idb).
Proof.
  intros Hclaim.
  set (o := mkDexie "schema-test-db" [mkVersion 1 primaryKeyConfig]).
  set (idb' := ({[ "schema-test-db" :=
                     mkDatabase 1
                       {[ "users" := Store.mkTable "id" {[ VNumber 123 := alice ]};
                          "products" := Store.mkTable "sku" ∅;
                          "ambiguous_items" := Store.mkTable "id1" ∅ ]} ]} : IndexedDB)).
  pose proof (Hclaim TestDatabase primaryKeyConfig "schema-test-db" 1 [] [o] [o; o]
                0%nat 1%nat ∅ idb' "users" alice (inr (VNumber 123))) as H.
  assert (Hbefore : Table_toArray [o; o] 1 "users" ∅ = Some [])
    by (vm_compute; reflexivity).
  assert (Hafter : Table_toArray [o; o] 1 "users" idb' = Some [alice])
    by (vm_compute; reflexivity).
  rewrite Hbefore, Hafter in H.
  assert (Hno : Some [alice] = Some ([] : list Entity)); [| discriminate].
  apply H; vm_compute; reflexivity.
Qed.

(** ** The operations of a table *)

Section StoreOperations.

Import Store.

Implicit Types (tbl : Table) (record : Entity) (explicitKey : option Value)
  (key : Value).









(** C10: when [add] of an object succeeds with key [k], [get k] on the
    resulting table returns that object, every property with the value that
    was inserted, and [k] is the value of the object's key field. *)
Theorem get_after_add tbl tbl' record explicitKey key :
  add record explicitKey tbl = (inr key, tbl') →
  get key tbl' = Some record ∧
  record !! keyField tbl = Some key ∧
  (∀ field : string, (get key tbl' ≫= λ o, o !! field) = record !! field).
Proof.
  unfold add. destruct (record !! keyField tbl) as [k|] eqn:Hk; [|discriminate].
  intros [= -> <-].
  assert (Hget : get key (mkTable (keyField tbl) (<[key := record]> (objects tbl)))
                 = Some record) by (unfold get; simpl; apply lookup_insert_eq).
  split; [done |]. split; [done |].
  intros field. by rewrite Hget.
Qed.

Lemma get_after_add_witness :
  get (VNumber 123) (mkTable "id" {[ VNumber 123 := alice ]}) = Some alice ∧
  alice !! "id" = Some (VNumber 123) ∧
  (∀ field : string,
      (get (VNumber 123) (mkTable "id" {[ VNumber 123 := alice ]}) ≫= λ o, o !! field)
      = alice !! field).
Proof.
  apply (get_after_add (mkTable "id" ∅) (mkTable "id" {[ VNumber 123 := alice ]})
           alice None (VNumber 123)).
  vm_compute. reflexivity.
Defined.

End StoreOperations.

(** * Further properties of the types and of the factory *)

(** ** Which configurations pass the check *)

Section Configurations.

Implicit Types (KDatabase : DatabaseType) (config : Config) (T : TableType)
  (t f k : string).

(** X1: a configuration must name every table of the database type: one that
    leaves a table out is reported as missing that property and is rejected,
    and the chain creates nothing. *)
Theorem config_must_cover_every_table KDatabase config t T dbName version
    (h : Heap) :
  KDatabase !! t = Some T →
  config !! t = None →
  check_PrimaryKeyConfig KDatabase config !! t = Some PropertyMissing ∧
  extends_PrimaryKeyConfig KDatabase config = false ∧
  factory_chain KDatabase config dbName version h
  = (inl (check_PrimaryKeyConfig KDatabase config), h).
Proof.
  intros Ht Hf.
  pose proof (check_missing _ _ _ _ Ht Hf) as Hd.
  pose proof (extends_PrimaryKeyConfig_false _ _ _ _ Hd) as Hno.
  split; [done |]. split; [done |].
  by apply factory_chain_rejects.
Qed.

Lemma config_must_cover_every_table_witness :
  check_PrimaryKeyConfig KyselyDatabase {[ "groceries" := "id" ]} !! "users"
  = Some PropertyMissing ∧
  extends_PrimaryKeyConfig KyselyDatabase {[ "groceries" := "id" ]} = false ∧
  factory_chain KyselyDatabase {[ "groceries" := "id" ]} "localdb" 1 []
  = (inl (check_PrimaryKeyConfig KyselyDatabase {[ "groceries" := "id" ]}), []).
Proof.
  apply (config_must_cover_every_table KyselyDatabase {[ "groceries" := "id" ]}
           "users" Users "localdb" 1 []);
    vm_compute; reflexivity.
Defined.

Lemma check_insert_unknown KDatabase config t f :
  KDatabase !! t = None →
  check_PrimaryKeyConfig KDatabase (<[t := f]> config)
  = check_PrimaryKeyConfig KDatabase config.
Proof.
  intros Ht. apply map_eq. intros t'.
  rewrite !lookup_check_PrimaryKeyConfig.
  destruct (decide (t = t')) as [<-|Hne].
  - by rewrite Ht.
  - by rewrite lookup_insert_ne.
Qed.

(** X2: the constraint does not look at properties that name no table of the
    database type: adding one changes no diagnostic, so an accepted
    configuration stays accepted; every handle the chain then returns declares
    a store for the added property like for any other, and the chain does
    return one when the engine accepts the version and the specifications. *)
Theorem unknown_table_passes_and_is_declared KDatabase config t f dbName version
    (h : Heap) :
  KDatabase !! t = None →
  check_PrimaryKeyConfig KDatabase (<[t := f]> config)
  = check_PrimaryKeyConfig KDatabase config ∧
  (extends_PrimaryKeyConfig KDatabase config = true →
   extends_PrimaryKeyConfig KDatabase (<[t := f]> config) = true ∧
   (∀ (db : Handle) (h' : Heap),
      factory_chain KDatabase (<[t := f]> config) dbName version h = (inr (inr db), h') →
      (declared_stores h' db ≫= λ stores, stores !! t) = Some f) ∧
   (1 ≤ version → stores_ok (<[t := f]> config) = true →
    ∃ (db : Handle) (h' : Heap),
      factory_chain KDatabase (<[t := f]> config) dbName version h
      = (inr (inr db), h'))).
Proof.
  intros Ht. split; [by apply check_insert_unknown |].
  intros Hok.
  assert (Hok' : extends_PrimaryKeyConfig KDatabase (<[t := f]> config) = true).
  { unfold extends_PrimaryKeyConfig in *.
    by rewrite (check_insert_unknown _ _ _ _ Ht). }
  split; [done |]. split.
  - intros db h' Hrun.
    apply factory_chain_built in Hrun as (_ & _ & _ & -> & ->).
    rewrite declared_stores_new. simpl. apply lookup_insert_eq.
  - intros Hver Hstores. eexists _, _. by apply factory_chain_accepts.
Qed.

Lemma unknown_table_passes_and_is_declared_witness :
  check_PrimaryKeyConfig KyselyDatabase (<["logs" := "message"]> example_primaryKeyConfig)
  = check_PrimaryKeyConfig KyselyDatabase example_primaryKeyConfig ∧
  ∃ (db : Handle) (h' : Heap),
    factory_chain KyselyDatabase (<["logs" := "message"]> example_primaryKeyConfig)
      "localdb" 1 [] = (inr (inr db), h').
Proof.
  pose proof (unknown_table_passes_and_is_declared KyselyDatabase
                example_primaryKeyConfig "logs" "message" "localdb" 1 []) as H.
  assert (Hlogs : KyselyDatabase !! "logs" = None) by (vm_compute; reflexivity).
  assert (Hok : extends_PrimaryKeyConfig KyselyDatabase example_primaryKeyConfig = true)
    by (vm_compute; reflexivity).
  assert (Hver : 1 ≤ 1) by lia.
  assert (Hstores : stores_ok (<["logs" := "message"]> example_primaryKeyConfig) = true)
    by (vm_compute; reflexivity).
  exact (conj (proj1 (H Hlogs))
              (proj2 (proj2 (proj2 (H Hlogs) Hok)) Hver Hstores)).
Defined.

(** X3: some configuration passes the check exactly when every table of the
    database type has a [Generated] property. *)
Theorem valid_config_exists_iff KDatabase :
  (∃ config, extends_PrimaryKeyConfig KDatabase config = true) ↔
  (∀ t T, KDatabase !! t = Some T → ∃ k v, T !! k = Some (Generated v)).
Proof.
  split.
  - intros [config Hok] t T Ht.
    destruct (proj1 (extends_PrimaryKeyConfig_true _ _) Hok t T Ht) as (f & _ & Hin).
    apply elem_of_FindPrimaryKey in Hin as [v Hv]. by exists f, v.
  - induction KDatabase as [|t T KDatabase Hfresh IH] using map_ind.
    + intros _. exists ∅. apply extends_PrimaryKeyConfig_true.
      intros t T Ht. by rewrite lookup_empty in Ht.
    + intros Hall.
      destruct (Hall t T (lookup_insert_eq _ _ _)) as (k & v & Hk).
      destruct IH as [config Hok].
      { intros t' T' Ht'. apply (Hall t' T').
        rewrite lookup_insert_ne; [done |]. intros ->. congruence. }
      exists (<[t := k]> config). apply extends_PrimaryKeyConfig_true.
      intros t' T' Ht'. destruct (decide (t = t')) as [<-|Hne].
      * rewrite lookup_insert_eq in Ht'. injection Ht' as <-.
        exists k. rewrite lookup_insert_eq. split; [done |].
        apply elem_of_FindPrimaryKey. by exists v.
      * rewrite lookup_insert_ne in Ht' by done.
        rewrite lookup_insert_ne by done.
        by apply (proj1 (extends_PrimaryKeyConfig_true _ _) Hok).
Qed.

Lemma valid_config_exists_iff_witness :
  ∃ k v, Users !! k = Some (Generated v).
Proof.
  refine (proj1 (valid_config_exists_iff KyselyDatabase) _ "users" Users _).
  - exists example_primaryKeyConfig. vm_compute. reflexivity.
  - vm_compute. reflexivity.
Defined.

(** X4: when [FindPrimaryKey] of a table is a single name, the configuration has
    no choice: one that passes the check names that property. *)
Theorem single_candidate_is_forced KDatabase config t T k :
  extends_PrimaryKeyConfig KDatabase config = true →
  KDatabase !! t = Some T →
  FindPrimaryKey T = {[ k ]} →
  config !! t = Some k.
Proof.
  intros Hok Ht Hsingle.
  destruct (proj1 (extends_PrimaryKeyConfig_true _ _) Hok t T Ht) as (f & Hf & Hin).
  rewrite Hsingle in Hin. apply elem_of_singleton in Hin. by rewrite Hf, Hin.
Qed.

Lemma single_candidate_is_forced_witness :
  example_primaryKeyConfig !! "groceries" = Some "id".
Proof.
  apply (single_candidate_is_forced KyselyDatabase example_primaryKeyConfig
           "groceries" Groceries "id");
    vm_compute; reflexivity.
Defined.

(** X5: when a table has several [Generated] properties, each of them is a valid
    choice: replacing the entry of an accepted configuration by another
    candidate of the table gives an accepted configuration. *)
Theorem any_candidate_may_be_chosen KDatabase config t T f v :
  extends_PrimaryKeyConfig KDatabase config = true →
  KDatabase !! t = Some T →
  T !! f = Some (Generated v) →
  extends_PrimaryKeyConfig KDatabase (<[t := f]> config) = true.
Proof.
  intros Hok Ht Hf. apply extends_PrimaryKeyConfig_true.
  intros t' T' Ht'. destruct (decide (t = t')) as [<-|Hne].
  - assert (T' = T) as -> by congruence.
    exists f. rewrite lookup_insert_eq. split; [done |].
    apply elem_of_FindPrimaryKey. by exists v.
  - rewrite lookup_insert_ne by done.
    by apply (proj1 (extends_PrimaryKeyConfig_true _ _) Hok).
Qed.

Lemma any_candidate_may_be_chosen_witness :
  extends_PrimaryKeyConfig KyselyDatabase (<["users" := "id"]> example_primaryKeyConfig)
  = true.
Proof.
  apply (any_candidate_may_be_chosen KyselyDatabase example_primaryKeyConfig
           "users" Users "id" TString);
    vm_compute; reflexivity.
Defined.

(** X6: candidates survive the growth of a table: every candidate of a table type
    is a candidate of any table type that extends it with further
    properties. So a configuration accepted for a database type is accepted
    for any database type whose tables are tables of the first one, each
    possibly with more properties. *)
Theorem accepted_config_survives_new_columns KDatabase KDatabase' config :
  extends_PrimaryKeyConfig KDatabase config = true →
  (∀ t T', KDatabase' !! t = Some T' → ∃ T, KDatabase !! t = Some T ∧ T ⊆ T') →
  (∀ t T T', KDatabase !! t = Some T → KDatabase' !! t = Some T' →
     FindPrimaryKey T ⊆ FindPrimaryKey T') ∧
  extends_PrimaryKeyConfig KDatabase' config = true.
Proof.
  intros Hok Hgrow.
  assert (Hmono : ∀ T T' : TableType, T ⊆ T' → FindPrimaryKey T ⊆ FindPrimaryKey T').
  { intros T T' Hsub k [v Hv]%elem_of_FindPrimaryKey.
    apply elem_of_FindPrimaryKey. exists v. by eapply lookup_weaken. }
  split.
  - intros t T T' Ht Ht'. apply Hmono.
    destruct (Hgrow t T' Ht') as (T0 & Ht0 & Hsub).
    by assert (T0 = T) as -> by congruence.
  - apply extends_PrimaryKeyConfig_true. intros t T' Ht'.
    destruct (Hgrow t T' Ht') as (T & Ht & Hsub).
    destruct (proj1 (extends_PrimaryKeyConfig_true _ _) Hok t T Ht) as (f & Hf & Hin).
    exists f. split; [done |]. by apply (Hmono T T').
Qed.

Lemma accepted_config_survives_new_columns_witness :
  (∀ t T T', KyselyDatabase !! t = Some T →
     (<["users" := <["name" := Plain TString]> Users]> KyselyDatabase) !! t = Some T' →
     FindPrimaryKey T ⊆ FindPrimaryKey T') ∧
  extends_PrimaryKeyConfig
    (<["users" := <["name" := Plain TString]> Users]> KyselyDatabase)
    example_primaryKeyConfig = true.
Proof.
  apply (accepted_config_survives_new_columns KyselyDatabase
           (<["users" := <["name" := Plain TString]> Users]> KyselyDatabase)
           example_primaryKeyConfig).
  - vm_compute. reflexivity.
  - intros t T' Ht'. destruct (decide (t = "users")) as [->|Hne].
    + exists Users. split; [vm_compute; reflexivity |].
      rewrite lookup_insert_eq in Ht'. injection Ht' as <-.
      apply insert_subseteq. vm_compute. reflexivity.
    + rewrite lookup_insert_ne in Ht' by done. by exists T'.
Defined.

(** X7: the candidates of a table depend on which of its properties are
    [Generated], not on their value types: two table types with the same
    property names and kinds have the same candidates, and are accepted with
    the same configurations. *)
Theorem candidates_ignore_value_types KDatabase config t T T' :
  kind_of <$> T = kind_of <$> T' →
  FindPrimaryKey T = FindPrimaryKey T' ∧
  check_PrimaryKeyConfig (<[t := T]> KDatabase) config
  = check_PrimaryKeyConfig (<[t := T']> KDatabase) config.
Proof.
  intros Hkinds.
  assert (He : FindPrimaryKey T = FindPrimaryKey T').
  { apply set_eq. intros k. rewrite !elem_of_FindPrimaryKey_kind.
    by rewrite <- !lookup_fmap, Hkinds. }
  split; [done |].
  apply map_eq. intros t'. rewrite !lookup_check_PrimaryKeyConfig.
  destruct (decide (t = t')) as [<-|Hne].
  - rewrite !lookup_insert_eq. simpl. by rewrite He.
  - by rewrite !lookup_insert_ne.
Qed.

Lemma candidates_ignore_value_types_witness :
  FindPrimaryKey Users
  = FindPrimaryKey {[ "id" := Generated TNumber; "otherId" := Generated TString;
                      "age" := Plain TNumber ]} ∧
  check_PrimaryKeyConfig (<["users" := Users]> KyselyDatabase) example_primaryKeyConfig
  = check_PrimaryKeyConfig
      (<["users" := {[ "id" := Generated TNumber; "otherId" := Generated TString;
                       "age" := Plain TNumber ]}]> KyselyDatabase)
      example_primaryKeyConfig.
Proof.
  apply (candidates_ignore_value_types KyselyDatabase example_primaryKeyConfig "users"
           Users
           {[ "id" := Generated TNumber; "otherId" := Generated TString;
              "age" := Plain TNumber ]}).
  vm_compute. reflexivity.
Defined.

End Configurations.

(** ** The type of the instance and what [build] declares *)

Section InstanceType.

Implicit Types (KDatabase : DatabaseType) (config : Config) (T : TableType)
  (t f k : string).

Lemma DexieFromKysely_Some KDatabase config D :
  DexieFromKysely KDatabase config = Some D →
  extends_PrimaryKeyConfig KDatabase config = true ∧
  ∀ t, D !! t = KDatabase !! t ≫= λ T, mkEntityTable (Selectable T) <$> config !! t.
Proof.
  unfold DexieFromKysely.
  destruct (extends_PrimaryKeyConfig KDatabase config); [|discriminate].
  intros [= <-]. split; [done |]. intros t. by rewrite map_lookup_imap.
Qed.

Lemma DexieFromKysely_lookup KDatabase config D t E :
  DexieFromKysely KDatabase config = Some D →
  D !! t = Some E →
  ∃ T v, KDatabase !! t = Some T ∧ config !! t = Some (keyProp E) ∧
         entity E = Selectable T ∧ T !! keyProp E = Some (Generated v).
Proof.
  intros [Hok HD]%DexieFromKysely_Some HE. rewrite HD in HE.
  destruct (KDatabase !! t) as [T|] eqn:Ht; [|discriminate]. simpl in HE.
  destruct (proj1 (extends_PrimaryKeyConfig_true _ _) Hok t T Ht) as (f & Hf & Hin).
  rewrite Hf in HE. injection HE as <-. simpl.
  apply elem_of_FindPrimaryKey in Hin as [v Hv]. by exists T, v.
Qed.

(** X8: the cast at the end of [build] is backed by what [build] declares: when
    the chain returns a handle, the type [DexieFromKysely] exists, it has
    the tables of the database type, and for each of them the key property
    is a property of the entity type, with the value type of the [Generated]
    column it comes from, and is the specification of the store declared
    under the table's name. *)
Theorem build_cast_is_backed KDatabase config dbName version (h h' : Heap)
    (db : Handle) :
  factory_chain KDatabase config dbName version h = (inr (inr db), h') →
  ∃ D, DexieFromKysely KDatabase config = Some D ∧
       dom D = dom KDatabase ∧
       ∀ t E, D !! t = Some E →
         ∃ T v, KDatabase !! t = Some T ∧
                entity E = Selectable T ∧
                T !! keyProp E = Some (Generated v) ∧
                entity E !! keyProp E = Some v ∧
                (declared_stores h' db ≫= λ stores, stores !! t) = Some (keyProp E).
Proof.
  intros Hrun.
  apply factory_chain_built in Hrun as (Hok & _ & _ & -> & ->).
  destruct (DexieFromKysely KDatabase config) as [D|] eqn:HD;
    [| unfold DexieFromKysely in HD; rewrite Hok in HD; discriminate].
  exists D. split; [done |]. split.
  - apply set_eq. intros t. rewrite !elem_of_dom.
    rewrite (proj2 (DexieFromKysely_Some _ _ _ HD) t).
    destruct (KDatabase !! t) as [T|] eqn:Ht; simpl.
    + destruct (proj1 (extends_PrimaryKeyConfig_true _ _) Hok t T Ht) as (f & -> & _).
      simpl. split; eauto.
    + split; intros [? ?]; discriminate.
  - intros t E HE.
    destruct (DexieFromKysely_lookup _ _ _ _ _ HD HE) as (T & v & Ht & Hf & He & Hk).
    exists T, v. split; [done |]. split; [done |]. split; [done |].
    split.
    + rewrite He. unfold Selectable. by rewrite lookup_fmap, Hk.
    + by rewrite declared_stores_new.
Qed.

Lemma build_cast_is_backed_witness :
  ∃ D, DexieFromKysely KyselyDatabase example_primaryKeyConfig = Some D ∧
       dom D = dom KyselyDatabase ∧
       ∀ t E, D !! t = Some E →
         ∃ T v, KyselyDatabase !! t = Some T ∧
                entity E = Selectable T ∧
                T !! keyProp E = Some (Generated v) ∧
                entity E !! keyProp E = Some v ∧
                (declared_stores
                   [mkDexie "localdb" [mkVersion 1 example_primaryKeyConfig]]
                   0 ≫= λ stores, stores !! t) = Some (keyProp E).
Proof.
  apply (build_cast_is_backed KyselyDatabase example_primaryKeyConfig "localdb" 1 []
           [mkDexie "localdb" [mkVersion 1 example_primaryKeyConfig]]
           0%nat).
  vm_compute. reflexivity.
Defined.

(** X9: [DexieFromKysely] narrows the deprecated [_DexieFromKysely]: same tables
    and entity types, and the key it gives a table is a member of the union
    the deprecated type gives it; the two agree on the tables whose union is
    a single name. *)
Theorem DexieFromKysely_narrows_deprecated KDatabase config D :
  DexieFromKysely KDatabase config = Some D →
  dom D = dom (_DexieFromKysely KDatabase) ∧
  ∀ t E, D !! t = Some E →
    ∃ E', _DexieFromKysely KDatabase !! t = Some E' ∧
          entity E' = entity E ∧
          keyProp E ∈ keyProp E' ∧
          (∀ k, keyProp E' = {[ k ]} → keyProp E = k).
Proof.
  intros HD.
  pose proof (DexieFromKysely_Some _ _ _ HD) as [Hok Hlook].
  split.
  - apply set_eq. intros t. unfold _DexieFromKysely.
    rewrite dom_fmap_L, !elem_of_dom, Hlook.
    destruct (KDatabase !! t) as [T|] eqn:Ht; simpl.
    + destruct (proj1 (extends_PrimaryKeyConfig_true _ _) Hok t T Ht) as (f & -> & _).
      simpl. split; eauto.
    + split; intros [? ?]; discriminate.
  - intros t E HE.
    destruct (DexieFromKysely_lookup _ _ _ _ _ HD HE) as (T & v & Ht & Hf & He & Hk).
    exists (mkEntityTable (Selectable T) (FindPrimaryKey T)).
    unfold _DexieFromKysely. rewrite lookup_fmap, Ht. simpl.
    split; [done |]. split; [done |].
    assert (Hin : keyProp E ∈ FindPrimaryKey T)
      by (apply elem_of_FindPrimaryKey; by exists v).
    split; [done |].
    intros k Hk'. rewrite Hk' in Hin. by apply elem_of_singleton in Hin.
Qed.

Lemma DexieFromKysely_narrows_deprecated_witness :
  ∃ D, DexieFromKysely KyselyDatabase example_primaryKeyConfig = Some D ∧
       dom D = dom (_DexieFromKysely KyselyDatabase) ∧
       ∀ t E, D !! t = Some E →
         ∃ E', _DexieFromKysely KyselyDatabase !! t = Some E' ∧
               entity E' = entity E ∧
               keyProp E ∈ keyProp E' ∧
               (∀ k, keyProp E' = {[ k ]} → keyProp E = k).
Proof.
  eexists. split; [vm_compute; reflexivity |].
  apply (DexieFromKysely_narrows_deprecated KyselyDatabase example_primaryKeyConfig).
  vm_compute. reflexivity.
Defined.

(** X10: the deprecated type gives a table a key that is a union of two or more
    names as soon as the table has two [Generated] properties, whatever else
    it holds; it needs no configuration and exists for every database type. *)
Theorem deprecated_key_is_ambiguous KDatabase t T k1 k2 v1 v2 :
  KDatabase !! t = Some T →
  T !! k1 = Some (Generated v1) →
  T !! k2 = Some (Generated v2) →
  k1 ≠ k2 →
  ∃ E', _DexieFromKysely KDatabase !! t = Some E' ∧
        k1 ∈ keyProp E' ∧ k2 ∈ keyProp E' ∧ (2 ≤ size (keyProp E'))%nat.
Proof.
  intros Ht H1 H2 Hne.
  exists (mkEntityTable (Selectable T) (FindPrimaryKey T)).
  unfold _DexieFromKysely. rewrite lookup_fmap, Ht. simpl.
  assert (Hin1 : k1 ∈ FindPrimaryKey T) by (apply elem_of_FindPrimaryKey; eauto).
  assert (Hin2 : k2 ∈ FindPrimaryKey T) by (apply elem_of_FindPrimaryKey; eauto).
  split; [done |]. split; [done |]. split; [done |].
  assert (Hsub : ({[ k1; k2 ]} : gset string) ⊆ FindPrimaryKey T).
  { intros x [->%elem_of_singleton | ->%elem_of_singleton]%elem_of_union; done. }
  apply subseteq_size in Hsub.
  rewrite size_union in Hsub by (by apply disjoint_singleton_l, not_elem_of_singleton).
  by rewrite !size_singleton in Hsub.
Qed.

Lemma deprecated_key_is_ambiguous_witness :
  ∃ E', _DexieFromKysely KyselyDatabase !! "users" = Some E' ∧
        "id" ∈ keyProp E' ∧ "otherId" ∈ keyProp E' ∧ (2 ≤ size (keyProp E'))%nat.
Proof.
  apply (deprecated_key_is_ambiguous KyselyDatabase "users" Users "id" "otherId"
           TString TNumber); [vm_compute; reflexivity .. |].
  by_evaluation.
Defined.

End InstanceType.

(** ** What [build] hands to the engine *)





(** X12: [build] does not escape the chosen name: a [Generated] property whose
    name starts with the engine's auto-increment mark [++] is a candidate like
    any other, is handed over as it is, and the engine reads the
    specification as a key named by the rest of the name, unique and
    auto-incremented, that is not externally supplied. *)
Theorem marks_in_names_are_not_escaped
    (KDatabase : DatabaseType) (config : Config) (t : string) (T : TableType)
    (s : string) (v : ValueType) :
  KDatabase !! t = Some T →
  T !! ("++" +:+ s) = Some (Generated v) →
  config !! t = Some ("++" +:+ s) →
  syntax_free s = true →
  check_PrimaryKeyConfig KDatabase config !! t = None ∧
  storesConfig config !! t = Some ("++" +:+ s) ∧
  emit config !! t
  = Some {| fieldName := s; unique := true; externallySupplied := false |}.
Proof.
  intros Ht Hk Hf Hs. split.
  - rewrite lookup_check_PrimaryKeyConfig, Ht, Hf. simpl.
    rewrite decide_True; [done |]. apply elem_of_FindPrimaryKey. by exists v.
  - split; [by rewrite storesConfig_config |].
    rewrite emit_lookup, Hf. simpl. unfold KeySpec_of_spec.
    by rewrite (parsePrimKey_plusplus _ Hs).
Qed.

Lemma marks_in_names_are_not_escaped_witness :
  check_PrimaryKeyConfig {[ "counters" := {[ "++id" := Generated TNumber ]} ]}
    {[ "counters" := "++id" ]} !! "counters" = None ∧
  storesConfig {[ "counters" := "++id" ]} !! "counters" = Some "++id" ∧
  emit {[ "counters" := "++id" ]} !! "counters"
  = Some {| fieldName := "id"; unique := true; externallySupplied := false |}.
Proof.
  apply (marks_in_names_are_not_escaped
           {[ "counters" := {[ "++id" := Generated TNumber ]} ]}
           {[ "counters" := "++id" ]} "counters"
           {[ "++id" := Generated TNumber ]} "id" TNumber);
    vm_compute; reflexivity.
Defined.
